(** * Git-Seer: a shallow embedding of [seer.py] and [seer-tui.py]

    Strings are Stdlib [string]s (text as its UTF-8 bytes); Python's
    string order on them is the byte order of [String.compare], i.e.
    stdpp's [String.le].
    Python dicts are stdpp [gmap]s. *)

From Stdlib Require Import String Ascii.
From stdpp Require Import base list gmap strings sorting.

Open Scope string_scope.
Open Scope list_scope.

(** ** Listing entries

    One element of the GitHub listing: [item['path']] and [item['type']]
    ("blob" for files, "tree" for directories). *)
Record item := mk_item { path : string; type_ : string }.

Definition is_blob (it : item) : bool := String.eqb (type_ it) "blob".

(** ** String helpers *)

(** [s.rpartition(c)]: [Some (before, after)] around the last [c], or
    [None] when [c] does not occur. *)
Fixpoint rsplit_last (c : ascii) (s : string) : option (string * string) :=
  match s with
  | EmptyString => None
  | String a rest =>
      match rsplit_last c rest with
      | Some (b, e) => Some (String a b, e)
      | None => if Ascii.eqb a c then Some (EmptyString, rest) else None
      end
  end.

(** Python's [s.rpartition(c)] as a triple. *)
Definition rpartition (c : ascii) (s : string) : string * string * string :=
  match rsplit_last c s with
  | Some (b, e) => (b, String c EmptyString, e)
  | None => (EmptyString, EmptyString, s)
  end.

(** Python's [s.split(c)] (every occurrence). *)
Fixpoint split_on (c : ascii) (s : string) : list string :=
  match s with
  | EmptyString => [EmptyString]
  | String a rest =>
      if Ascii.eqb a c then EmptyString :: split_on c rest
      else match split_on c rest with
           | [] => [String a EmptyString]
           | w :: ws => String a w :: ws
           end
  end.

(** Python's [s.endswith(t)]. *)
Definition endswith (s t : string) : bool :=
  String.prefix (String.rev t) (String.rev s).

(** Python's [s.startswith(t)]. *)
Definition startswith (s t : string) : bool := String.prefix t s.

(** ** The interactive tree ([SeerApp.populate_tree])

    Textual's [Tree] widget is a store of nodes: the root has id [0], the
    node created [k]-th (from 0) has id [k + 1] and lives at index [k] of
    [arena].  Each node records its parent id, the name shown in its label
    ([current_name]; the icon is determined by [allow_expand]), its [data]
    (the full path) and whether it was added with [add] ([allow_expand =
    true]) or [add_leaf]. *)
Record tnode := mk_tnode {
  parent : nat;
  label : string;
  data : string;
  allow_expand : bool
}.

(** The local state of the loop: the [nodes] dict (path to node id) and
    the widget's node store. *)
Record tree_state := mk_tree_state {
  nodes : gmap string nat;
  arena : list tnode
}.

Definition root_id : nat := 0.

(** [nodes = {"": tree.root}] on an empty tree. *)
Definition init_state : tree_state :=
  mk_tree_state {[ "" := root_id ]} [].

(** One iteration of [for item in sorted_tree]. *)
Definition populate_step (st : tree_state) (it : item) : tree_state :=
  let '(parent_path, _, current_name) := rpartition "/" (path it) in
  let parent_node := default root_id (nodes st !! parent_path) in
  let new_id := S (length (arena st)) in
  if is_blob it then
    mk_tree_state (nodes st)
      (arena st ++ [mk_tnode parent_node current_name (path it) false])
  else
    mk_tree_state (<[path it := new_id]> (nodes st))
      (arena st ++ [mk_tnode parent_node current_name (path it) true]).

(** The node [populate_step st it] appends to the store. *)
Definition node_for (st : tree_state) (it : item) : tnode :=
  let '(parent_path, _, current_name) := rpartition "/" (path it) in
  mk_tnode (default root_id (nodes st !! parent_path)) current_name (path it)
    (negb (is_blob it)).

(** [sorted(self.file_tree_data, key=lambda x: x['path'])]. *)
Definition path_le (a b : item) : Prop := String.le (path a) (path b).

#[global] Instance path_le_dec : RelDecision path_le.
Proof. intros a b. unfold path_le. apply _. Defined.

Definition sort_by_path (l : list item) : list item := merge_sort path_le l.

Definition run_steps (l : list item) : tree_state :=
  fold_left populate_step l init_state.

(** [populate_tree]: [None] is the early return on empty data ("No file
    data to display."); otherwise the final node store. *)
Definition populate_tree (file_tree_data : list item) : option (list tnode) :=
  match file_tree_data with
  | [] => None
  | _ => Some (arena (run_steps (sort_by_path file_tree_data)))
  end.

(** [parent_path] of [path.rpartition('/')]. *)
Definition parent_path (p : string) : string := (rpartition "/" p).1.1.

(** A repository-relative path: non-empty, not starting with ['/']. *)
Definition relative_path (p : string) : bool :=
  negb (String.eqb p "") && negb (startswith p "/").

(** Every directory above path [p] (each prefix of [p] that ends just
    before a ['/']) is listed as a directory entry. *)
Definition ancestors_listed (l : list item) (p : string) : Prop :=
  forall b e, p = (b ++ String "/" e)%string ->
  exists d, d ∈ l /\ path d = b /\ is_blob d = false.

(** The prefixes of [p] that end just before a ['/']. *)
Fixpoint slash_prefixes (p : string) : list string :=
  match p with
  | EmptyString => []
  | String a rest =>
      (if Ascii.eqb a "/" then [EmptyString] else []) ++
      (String a <$> slash_prefixes rest)
  end.

(** Walking from node [id] up to the root, collecting the node names from
    the root down; [fuel] bounds the walk. *)
Fixpoint walk_names (ar : list tnode) (fuel : nat) (id : nat)
  : option (list string) :=
  match id with
  | O => Some []
  | S k =>
      match fuel with
      | O => None
      | S f =>
          match ar !! k with
          | None => None
          | Some n =>
              match walk_names ar f (parent n) with
              | Some names => Some (names ++ [label n])%list
              | None => None
              end
          end
      end
  end.

(** The path spelled by the names on the way from the root to node [id]. *)
Definition full_path_of (ar : list tnode) (id : nat) : option string :=
  match walk_names ar (length ar) id with
  | Some names => Some (String.concat "/" names)
  | None => None
  end.

(** ** Remote listing client ([get_repo_tree], TUI [get_tree])

    What one [requests.get(api_url)] ends in, after [raise_for_status()]
    and [response.json()]. *)
Inductive response :=
| Transport_error          (** [RequestException]: timeout, DNS, refused *)
| Http_error (status : N)  (** [raise_for_status()] raises [HTTPError] *)
| Json_error               (** [response.json()] raises (a [RequestException]) *)
| Json_ok (tree : option (list item)).
    (** a JSON object; [tree] is its ['tree'] field, if present *)

(** The server: the response to a listing request for a branch. *)
Definition listing_server := string -> response.

(** [get_repo_tree] of [seer.py]; the second component lists the branches
    requested, in order.  The recursion depth is bounded by [fuel]. *)
Fixpoint get_repo_tree_go (net : listing_server) (fuel : nat) (branch : string)
  : option (list item) * list string :=
  match fuel with
  | O => (None, [])
  | S f =>
      match net branch with
      | Json_ok data => (data, [branch])        (** ['tree' in data] *)
      | Http_error _ =>
          if String.eqb branch "main" then
            let '(res, log) := get_repo_tree_go net f "master" in
            (res, branch :: log)
          else (None, [branch])
      | Transport_error | Json_error => (None, [branch])
      end
  end.

Definition get_repo_tree (net : listing_server) (branch : string)
  : option (list item) * list string :=
  get_repo_tree_go net 2 branch.

(** [get_tree] of [SeerApp.load_repo_data]: [data.get('tree')]. *)
Fixpoint get_tree_go (net : listing_server) (fuel : nat) (branch : string)
  : option (list item) * list string :=
  match fuel with
  | O => (None, [])
  | S f =>
      match net branch with
      | Json_ok data => (data, [branch])
      | Http_error _ =>
          if String.eqb branch "main" then
            let '(res, log) := get_tree_go net f "master" in
            (res, branch :: log)
          else (None, [branch])
      | Transport_error | Json_error => (None, [branch])
      end
  end.

Definition get_tree (net : listing_server) (branch : string)
  : option (list item) * list string :=
  get_tree_go net 2 branch.

(** ** Analyzers *)

(** The findings of [analyze_project_structure], in the order appended. *)
Inductive finding :=
| Src_layout   (** "'src' layout detected" *)
| Monorepo     (** "monorepo structure ('packages/' or 'apps/')" *)
| Django       (** "Django project ('manage.py' found)" *)
| Dockerized   (** "Dockerized environment ('Dockerfile' or 'docker-compose.yml')" *)
| CI_CD.       (** "CI/CD configured (GitHub Actions)" *)

#[global] Instance finding_eq_dec : EqDecision finding.
Proof. solve_decision. Defined.

(** [p.split('/')[0]]. *)
Definition first_segment (p : string) : string :=
  match split_on "/" p with
  | w :: _ => w
  | [] => ""
  end.

(** [p.split('/')[-1]]. *)
Definition basename (p : string) : string := List.last (split_on "/" p) "".

Definition analyze_project_structure (tree : list item) : list finding :=
  let paths := path <$> filter (fun it => is_blob it = true) tree in
  let dirs := path <$> filter (fun it => type_ it = "tree") tree in
  (if existsb (fun p => startswith p "src/") paths then [Src_layout] else []) ++
  (if existsb (fun p => String.eqb (first_segment p) "packages") paths
      || existsb (fun p => String.eqb (first_segment p) "apps") paths
   then [Monorepo] else []) ++
  (if existsb (fun p => endswith p "manage.py") paths then [Django] else []) ++
  (if existsb (fun p => endswith p "docker-compose.yml" || endswith p "Dockerfile") paths
   then [Dockerized] else []) ++
  (if existsb (fun p => String.eqb p ".github/workflows") dirs then [CI_CD] else []).

Definition dep_files : list string :=
  ["pyproject.toml"; "requirements.txt"; "package.json"; "go.mod"; "pom.xml";
   "build.gradle"; "Cargo.toml"; "Gemfile"].

(** [sorted(list({basename for item in tree if basename in dep_files}))]. *)
Definition analyze_dependencies (tree : list item) : list string :=
  merge_sort String.le
    (remove_dups (filter (fun b => b ∈ dep_files)
                         ((fun it => basename (path it)) <$> tree))).

Definition lang_map : gmap string string :=
  list_to_map [(".py", "Python"); (".js", "JavaScript"); (".ts", "TypeScript");
               (".tsx", "TypeScript"); (".go", "Go"); (".rs", "Rust");
               (".java", "Java"); (".rb", "Ruby"); (".c", "C"); (".cpp", "C++");
               (".md", "Markdown"); (".html", "HTML"); (".css", "CSS");
               (".yml", "YAML"); (".json", "JSON")].

(** One iteration of the loop of [analyze_languages]. *)
Definition count_language (counts : gmap string nat) (it : item)
  : gmap string nat :=
  if is_blob it then
    match rsplit_last "." (path it) with        (** [path.rsplit('.', 1)] *)
    | Some (_, after) =>
        match lang_map !! ("." ++ after)%string with
        | Some lang => <[lang := default 0 (counts !! lang) + 1]> counts
        | None => counts
        end
    | None => counts
    end
  else counts.

Definition analyze_languages (tree : list item) : gmap string nat :=
  fold_left count_language tree ∅.

(** The language an entry's path is counted under, if any. *)
Definition language_of (p : string) : option string :=
  match rsplit_last "." p with
  | Some (_, after) => lang_map !! ("." ++ after)%string
  | None => None
  end.

(** ** The secret/risk detector ([analyze_code_smells]) *)

(** Python's [k in s] on strings. *)
Fixpoint contains (s k : string) : bool :=
  String.prefix k s ||
  match s with
  | EmptyString => false
  | String _ rest => contains rest k
  end.

(** [str.lower()] on an ASCII character. *)
Definition ascii_lower (a : ascii) : ascii :=
  let n := nat_of_ascii a in
  if (65 <=? n)%nat && (n <=? 90)%nat then ascii_of_nat (n + 32) else a.

Fixpoint lower (s : string) : string :=
  match s with
  | EmptyString => EmptyString
  | String a rest => String (ascii_lower a) (lower rest)
  end.

Definition smell_keywords : list string :=
  [".env"; "secret"; "credentials"; "id_rsa"; ".pem"].

(** [any(keyword in item['path'].lower() for keyword in smell_keywords)]. *)
Definition smelly (p : string) : bool :=
  existsb (fun keyword => contains (lower p) keyword) smell_keywords.

Definition analyze_code_smells (tree : list item) : list string :=
  path <$> filter (fun it => smelly (path it) = true) tree.

(** ** The CLI ([main] of [seer.py]) *)


(** What the metadata request ends in; a JSON object is a list of
    fields. *)
Inductive meta_response :=
| Meta_transport_error
| Meta_http_error (status : N)
| Meta_json_error
| Meta_ok (fields : list (string * string)).

Definition get_repo_metadata (r : meta_response)
  : option (list (string * string)) :=
  match r with
  | Meta_ok d => Some d
  | _ => None
  end.

(** Python truthiness of [metadata] and [file_tree]. *)
Definition truthy {A} (o : option (list A)) : bool :=
  match o with
  | Some (_ :: _) => true
  | _ => false
  end.

Inductive request :=
| Req_metadata
| Req_tree (branch : string).

Record report := mk_report {
  rep_structures : list finding;
  rep_dependencies : list string;
  rep_languages : gmap string nat
}.

(** Rich's markup parser as the CLI meets it: [accepts r m] tells whether
    [rich.markup.render] turns the markup [m] into text or raises
    [MarkupError] (a closing tag such as ["[/etc]"] that matches no open
    tag). Rich returns early, without parsing, on a string with no ['['],
    so such a string is always accepted. *)
Record markup_renderer := mk_renderer {
  accepts : string -> bool;
  accepts_plain : forall m, contains m "[" = false -> accepts m = true
}.

(** [metadata.get(key, default)] on the decoded JSON object, each value
    as its [str()]; a JSON object with a repeated key keeps the last. *)
Definition meta_get (md : list (string * string)) (key default : string) : string :=
  fold_left (fun acc '(k, v) => if String.eqb k key then v else acc) md default.

Definition newline : string := String (ascii_of_nat 10) EmptyString.

(** The text of [console.status(...)], parsed when the status is
    created, before any request. *)
Definition status_markup (repo : string) : string :=
  "[bold yellow]🔮 Peering into the digital soul of " ++ repo ++ "...[/]".

(** The markup strings of the report that can hold a ['[']: the panel's
    title and body, the dependencies row and the red-flags row. The other
    texts printed (status updates, row labels, the languages and
    architecture rows) are built from fixed words, language names and
    numbers only, hold no ['['] and are accepted by any renderer. *)
Definition report_markup (repo : string) (md : list (string * string))
    (file_tree : list item) : list string :=
  let stats := ("⭐ " ++ meta_get md "stargazers_count" "0" ++ " │ 🍴 " ++
                meta_get md "forks_count" "0" ++ " │ 🐞 " ++
                meta_get md "open_issues_count" "0" ++ " issues")%string in
  let title := ("Oracle Report for [link=https://github.com/" ++ repo ++ "]" ++
                repo ++ "[/link]")%string in
  let body := ("[bold cyan]" ++ stats ++ "[/]" ++ newline ++ "[i]" ++
               meta_get md "description" "No description." ++ "[/i]")%string in
  let dependencies := analyze_dependencies file_tree in
  let smells := analyze_code_smells file_tree in
  [title; body] ++
  (if bool_decide (dependencies = []) then []
   else [("Found: [cyan]" ++ String.concat ", " dependencies ++ "[/cyan]")%string]) ++
  (if bool_decide (smells = []) then
     ["[green]✅ No obvious secret files found.[/green]"]
   else [("[yellow]Potential secrets or config found in: " ++
          String.concat ", " smells ++ "[/yellow]")%string]).

(** Exit code, requests made in order, and the report printed (if any).
    An exception raised by Rich ends the program with exit code 1. *)
Definition main (repo : string) (meta : meta_response) (net : listing_server)
    (rich : markup_renderer) : nat * list request * option report :=
  match split_on "/" repo with
  | [owner; name] =>
      if accepts rich (status_markup repo) then
        let metadata := get_repo_metadata meta in
        let '(file_tree, log) := get_repo_tree net "main" in
        let reqs := Req_metadata :: map Req_tree log in
        match metadata, file_tree with
        | Some md, Some ft =>
            if truthy (Some md) && truthy (Some ft) then
              if forallb (accepts rich) (report_markup repo md ft) then
                (0, reqs, Some (mk_report (analyze_project_structure ft)
                                          (analyze_dependencies ft)
                                          (analyze_languages ft)))
              else (1, reqs, None)
            else (1, reqs, None)
        | _, _ => (1, reqs, None)
        end
      else (1, [], None)
  | _ => (1, [], None)
  end.

(** Number of occurrences of a character. *)
Fixpoint count_char (c : ascii) (s : string) : nat :=
  match s with
  | EmptyString => 0
  | String a rest => (if Ascii.eqb a c then 1 else 0) + count_char c rest
  end.

(** ** The TUI worker ([SeerApp.load_repo_data])

    What the app ends up showing: the status line with one of its
    messages, or the populated tree. *)
Inductive tui_message :=
| Msg_invalid_format     (** "Invalid repo format." *)
| Msg_could_not_load     (** "Could not load repository: ..." *)
| Msg_no_file_data.      (** "No file data to display." ([populate_tree]) *)

Inductive tui_view :=
| Status_line (msg : tui_message)
| Tree_view (nodes : list tnode).

(** The view reached and the branches requested. *)
Definition load_repo_data (repo_full_name : string) (net : listing_server)
  : tui_view * list string :=
  match split_on "/" repo_full_name with
  | [owner; name] =>
      let '(tree_data, log) := get_tree net "main" in
      match tree_data with
      | Some ((_ :: _) as d) =>          (** [if tree_data:] *)
          (match populate_tree d with
           | Some ar => Tree_view ar
           | None => Status_line Msg_no_file_data
           end, log)
      | _ => (Status_line Msg_could_not_load, log)
      end
  | _ => (Status_line Msg_invalid_format, [])
  end.

Example populate_tree_ex1 :
  populate_tree [mk_item "a/b.txt" "blob"; mk_item "a" "tree"] =
  Some [mk_tnode 0 "a" "a" true; mk_tnode 1 "b.txt" "a/b.txt" false].
Proof. vm_compute. reflexivity. Qed.

Example populate_tree_ex2 :
  populate_tree [mk_item "x/y.txt" "blob"] =
  Some [mk_tnode 0 "y.txt" "x/y.txt" false].
Proof. vm_compute. reflexivity. Qed.

Example languages_ex :
  analyze_languages [mk_item "a.py" "blob"; mk_item "b.py" "blob";
                     mk_item "c.unknownext" "blob"; mk_item "README" "blob"]
  = {[ "Python" := 2 ]}.
Proof. vm_compute. reflexivity. Qed.

Example dependencies_ex :
  analyze_dependencies [mk_item "web/package.json" "blob"; mk_item "go.mod" "blob";
                        mk_item "package.json" "blob"; mk_item "src/a.py" "blob"]
  = ["go.mod"; "package.json"].
Proof. vm_compute. reflexivity. Qed.

Example structure_ex :
  analyze_project_structure [mk_item "src/x.py" "blob"; mk_item "apps" "tree";
                             mk_item "api/Dockerfile" "blob"; mk_item "Dockerfile" "blob";
                             mk_item ".github/workflows" "tree"]
  = [Src_layout; Dockerized; CI_CD].
Proof. vm_compute. reflexivity. Qed.

Example get_repo_tree_ex :
  get_repo_tree (fun b => if String.eqb b "main" then Http_error 404
                          else Json_ok (Some [mk_item "a" "blob"])) "main"
  = (Some [mk_item "a" "blob"], ["main"; "master"]).
Proof. reflexivity. Qed.

(** A renderer that accepts every markup. *)
Definition accept_all : markup_renderer :=
  mk_renderer (fun _ => true) (fun _ _ => eq_refl).

(** A renderer that refuses markup holding the closing tag ["[/etc]"],
    as Rich does when no ["[etc]"] tag is open. *)
Definition reject_etc : markup_renderer.
Proof.
  refine (mk_renderer (fun m => negb (contains m "[/etc]")) _).
  intros m Hm. apply negb_true_iff.
  induction m as [|a m IH]; [reflexivity|].
  change (String.prefix "[" (String a m) || contains m "[" = false) in Hm.
  change (String.prefix "[/etc]" (String a m) || contains m "[/etc]" = false).
  apply orb_false_iff in Hm as [Hp Hm]. rewrite (IH Hm), orb_false_r.
  cbn [String.prefix] in Hp |- *.
  destruct (ascii_dec "[" a); [destruct m; discriminate|reflexivity].
Defined.

Example main_ex :
  main "notarepo" (Meta_ok []) (fun _ => Json_ok None) accept_all = (1, [], None).
Proof. reflexivity. Qed.

Example main_markup_ex :
  main "o/r" (Meta_ok [("description", "[/etc] tools")])
    (fun _ => Json_ok (Some [mk_item "a.py" "blob"])) reject_etc =
  (1, [Req_metadata; Req_tree "main"], None) /\
  main "o/r" (Meta_ok [("description", "tools")])
    (fun _ => Json_ok (Some [mk_item "a.py" "blob"])) reject_etc =
  (0, [Req_metadata; Req_tree "main"],
   Some (mk_report [] [] (analyze_languages [mk_item "a.py" "blob"]))).
Proof. split; vm_compute; reflexivity. Qed.

Example smells_ex :
  analyze_code_smells [mk_item "config/.env" "blob"; mk_item "src/main.py" "blob";
                       mk_item "Keys/ID_RSA" "blob"; mk_item "Secrets" "tree"]
  = ["config/.env"; "Keys/ID_RSA"; "Secrets"].
Proof. vm_compute. reflexivity. Qed.

Example load_repo_data_ex :
  load_repo_data "o/r" (fun _ => Json_ok (Some [])) =
  (Status_line Msg_could_not_load, ["main"]).
Proof. reflexivity. Qed.

(** ** Facts about the tree reconstruction *)

Lemma populate_step_arena st x :
  arena (populate_step st x) = arena st ++ [node_for st x].
Proof.
  unfold populate_step, node_for.
  destruct (rpartition "/" (path x)) as [[pp sep] nm].
  destruct (is_blob x); reflexivity.
Qed.

Lemma populate_step_nodes st x :
  nodes (populate_step st x) =
  if is_blob x then nodes st
  else <[path x := S (length (arena st))]> (nodes st).
Proof.
  unfold populate_step.
  destruct (rpartition "/" (path x)) as [[pp sep] nm].
  destruct (is_blob x); reflexivity.
Qed.

Lemma run_steps_snoc l x :
  run_steps (l ++ [x]) = populate_step (run_steps l) x.
Proof. unfold run_steps. rewrite fold_left_app. reflexivity. Qed.

Lemma run_steps_length l : length (arena (run_steps l)) = length l.
Proof.
  induction l as [|x l IH] using rev_ind; [reflexivity|].
  rewrite run_steps_snoc, populate_step_arena, !length_app, IH. reflexivity.
Qed.

Lemma run_steps_lookup l j x :
  l !! j = Some x ->
  arena (run_steps l) !! j = Some (node_for (run_steps (take j l)) x).
Proof.
  induction l as [|y l IH] using rev_ind; intros Hj; [discriminate|].
  rewrite run_steps_snoc, populate_step_arena.
  destruct (decide (j < length l)) as [Hlt|Hge].
  - rewrite lookup_app_l by (rewrite run_steps_length; lia).
    rewrite lookup_app_l in Hj by lia.
    rewrite take_app_le by lia. by apply IH.
  - apply lookup_lt_Some in Hj as Hlen. rewrite length_app in Hlen. simpl in Hlen.
    assert (j = length l) as -> by lia.
    rewrite list_lookup_middle in Hj by done. injection Hj as ->.
    rewrite take_app_length.
    rewrite list_lookup_middle by (by rewrite run_steps_length). reflexivity.
Qed.

(** Every key of [nodes] is the root's [""] or the path of a directory
    entry whose node it points to. *)
Lemma run_steps_nodes_sound l p i :
  nodes (run_steps l) !! p = Some i ->
  (p = "" /\ i = root_id) \/
  (exists j x, i = S j /\ l !! j = Some x /\ path x = p /\ is_blob x = false).
Proof.
  revert p i. induction l as [|y l IH] using rev_ind; intros p i Hp.
  - simpl in Hp. unfold init_state in Hp. simpl in Hp.
    destruct (decide (p = "")) as [->|Hne].
    + rewrite lookup_singleton_eq in Hp. injection Hp as <-. by left.
    + rewrite lookup_singleton_ne in Hp by congruence. discriminate.
  - rewrite run_steps_snoc, populate_step_nodes in Hp.
    destruct (is_blob y) eqn:Hb.
    + destruct (IH p i Hp) as [?|(j & x & ? & Hx & ? & ?)]; [by left|].
      right. exists j, x. repeat split; try done. by apply lookup_app_l_Some.
    + destruct (decide (path y = p)) as [<-|Hne].
      * rewrite lookup_insert_eq in Hp. injection Hp as <-.
        right. exists (length l), y. rewrite run_steps_length.
        repeat split; try done. by apply list_lookup_middle.
      * rewrite lookup_insert_ne in Hp by done.
        destruct (IH p i Hp) as [?|(j & x & ? & Hx & ? & ?)]; [by left|].
        right. exists j, x. repeat split; try done. by apply lookup_app_l_Some.
Qed.

(** Every directory entry's path is a key of [nodes] pointing to a
    non-root node. *)
Lemma run_steps_nodes_complete l j x :
  l !! j = Some x -> is_blob x = false ->
  exists i, nodes (run_steps l) !! path x = Some (S i).
Proof.
  revert j. induction l as [|y l IH] using rev_ind; intros j Hj Hb; [discriminate|].
  rewrite run_steps_snoc, populate_step_nodes.
  destruct (is_blob y) eqn:Hby.
  - apply lookup_snoc_Some in Hj as [[? Hj]|[-> ->]]; [by eapply IH|congruence].
  - destruct (decide (path y = path x)) as [->|Hne].
    + rewrite lookup_insert_eq. eauto.
    + rewrite lookup_insert_ne by done.
      apply lookup_snoc_Some in Hj as [[? Hj]|[-> ->]]; [by eapply IH|congruence].
Qed.

(** With no directory entry at path [""], the root keeps the key [""]. *)
Lemma run_steps_nodes_root l :
  (forall x, x ∈ l -> is_blob x = false -> path x <> "") ->
  nodes (run_steps l) !! "" = Some root_id.
Proof.
  induction l as [|y l IH] using rev_ind; intros Hl.
  - reflexivity.
  - rewrite run_steps_snoc, populate_step_nodes.
    destruct (is_blob y) eqn:Hb.
    + apply IH. intros x Hx. apply Hl. set_solver.
    + rewrite lookup_insert_ne.
      * apply IH. intros x Hx. apply Hl. set_solver.
      * apply Hl; [set_solver|done].
Qed.

(** ** String facts *)

Lemma split_on_nonempty c s : split_on c s <> [].
Proof.
  induction s as [|a s IH]; simpl; [discriminate|].
  destruct (Ascii.eqb a c); [discriminate|].
  destruct (split_on c s); discriminate.
Qed.

Lemma rsplit_last_None_split c s :
  rsplit_last c s = None -> split_on c s = [s].
Proof.
  induction s as [|a s IH]; simpl; intros H; [reflexivity|].
  destruct (rsplit_last c s) as [[b e]|]; [discriminate|].
  destruct (Ascii.eqb a c); [discriminate|].
  rewrite IH by reflexivity. reflexivity.
Qed.

Lemma rsplit_last_Some_split c s b e :
  rsplit_last c s = Some (b, e) -> split_on c s = split_on c b ++ [e].
Proof.
  revert b e. induction s as [|a s IH]; simpl; intros b e H; [discriminate|].
  destruct (rsplit_last c s) as [[b' e']|] eqn:Hr.
  - injection H as <- <-. rewrite (IH b' e' eq_refl). simpl.
    destruct (Ascii.eqb a c); [reflexivity|].
    destruct (split_on c b') as [|w ws] eqn:Hb'.
    + by apply split_on_nonempty in Hb'.
    + reflexivity.
  - destruct (Ascii.eqb a c) eqn:Hac; [|discriminate].
    injection H as <- <-. rewrite rsplit_last_None_split by done. reflexivity.
Qed.

Lemma rsplit_last_Some_app c s b e :
  rsplit_last c s = Some (b, e) -> s = (b ++ String c e)%string.
Proof.
  revert b e. induction s as [|a s IH]; simpl; intros b e H; [discriminate|].
  destruct (rsplit_last c s) as [[b' e']|] eqn:Hr.
  - injection H as <- <-. rewrite (IH b' e' eq_refl). reflexivity.
  - destruct (Ascii.eqb a c) eqn:Hac; [|discriminate].
    injection H as <- <-. apply Ascii.eqb_eq in Hac as ->. reflexivity.
Qed.

Lemma concat_split_on c s :
  String.concat (String c EmptyString) (split_on c s) = s.
Proof.
  induction s as [|a s IH]; simpl; [reflexivity|].
  destruct (Ascii.eqb a c) eqn:Hac.
  - apply Ascii.eqb_eq in Hac as ->.
    destruct (split_on c s) as [|w ws] eqn:Hs.
    + by apply split_on_nonempty in Hs.
    + simpl. rewrite <- IH. reflexivity.
  - destruct (split_on c s) as [|w ws] eqn:Hs.
    + by apply split_on_nonempty in Hs.
    + destruct ws as [|w' ws]; simpl in *; rewrite <- IH; reflexivity.
Qed.

(** A string is strictly above its proper extensions' prefix. *)
Lemma not_le_extension b c e :
  ~ String.le (b ++ String c e)%string b.
Proof.
  unfold String.le, String.leb.
  induction b as [|a b IH]; simpl; [intros H; exact H|].
  assert (Ascii.compare a a = Eq) as ->.
  { unfold Ascii.compare. apply N.compare_refl. }
  exact IH.
Qed.

Lemma relative_path_parent p b e :
  relative_path p = true -> rsplit_last "/" p = Some (b, e) -> b <> "".
Proof.
  intros Hp Hr ->. apply rsplit_last_Some_app in Hr. subst p.
  unfold relative_path, startswith in Hp. simpl in Hp.
  destruct e; discriminate.
Qed.

(** ** Sorting facts *)

#[global] Instance path_le_trans : Transitive path_le.
Proof. intros a b c. unfold path_le. apply transitivity. Qed.

#[global] Instance path_le_total : Total path_le.
Proof. intros a b. unfold path_le. apply total. apply _. Qed.

Lemma sort_by_path_perm l : sort_by_path l ≡ₚ l.
Proof. apply merge_sort_Permutation. Qed.

Lemma sort_by_path_sorted l : StronglySorted path_le (sort_by_path l).
Proof. apply StronglySorted_merge_sort; apply _. Qed.

Lemma StronglySorted_lookup_lt {A} (R : relation A) (s : list A) i j a b :
  StronglySorted R s -> s !! i = Some a -> s !! j = Some b -> i < j -> R a b.
Proof.
  revert i j. induction s as [|y s IH]; intros i j Hs Hi Hj Hij; [discriminate|].
  apply StronglySorted_inv in Hs as [Hs Hall].
  destruct i as [|i]; destruct j as [|j]; simpl in *; try lia.
  - injection Hi as <-. rewrite Forall_forall in Hall. apply Hall.
    by eapply list_elem_of_lookup_2.
  - eapply IH; eauto with lia.
Qed.

Lemma node_for_data st x : data (node_for st x) = path x.
Proof. unfold node_for. destruct (rpartition "/" (path x)) as [[??]?]. reflexivity. Qed.

Lemma node_for_allow_expand st x : allow_expand (node_for st x) = negb (is_blob x).
Proof. unfold node_for. destruct (rpartition "/" (path x)) as [[??]?]. reflexivity. Qed.

Lemma elem_of_take_elem_of (x : item) n (l : list item) : x ∈ take n l -> x ∈ l.
Proof.
  intros H. apply list_elem_of_lookup in H as [i Hi].
  apply lookup_take_Some in Hi as [Hi _]. by eapply list_elem_of_lookup_2.
Qed.

Lemma str_app_assoc a b c : (a ++ (b ++ c))%string = ((a ++ b) ++ c)%string.
Proof. induction a as [|x a IH]; [reflexivity|]. exact (f_equal (String x) IH). Qed.

Lemma prefix_slash a r : String.prefix "/" (String a r) = bool_decide ("/"%char = a).
Proof.
  change (String.prefix "/" (String a r)) with
    (if ascii_dec "/" a then String.prefix "" r else false).
  destruct (ascii_dec "/" a) as [<-|Hne].
  - rewrite bool_decide_eq_true_2 by done. by destruct r.
  - by rewrite bool_decide_eq_false_2.
Qed.

Lemma relative_path_prefix b e :
  relative_path (b ++ String "/" e)%string = true -> relative_path b = true.
Proof.
  unfold relative_path, startswith.
  destruct b as [|a b]; intros H.
  - change ("" ++ String "/" e)%string with (String "/" e) in H.
    rewrite prefix_slash, bool_decide_eq_true_2 in H by done.
    rewrite andb_false_r in H. discriminate.
  - change (String a b ++ String "/" e)%string with (String a (b ++ String "/" e)) in H.
    rewrite prefix_slash in H |- *.
    destruct (bool_decide ("/"%char = a)); [|reflexivity].
    rewrite andb_false_r in H. discriminate.
Qed.

Lemma ancestors_listed_parent l b e :
  ancestors_listed l (b ++ String "/" e)%string -> ancestors_listed l b.
Proof.
  intros H b' e' ->. apply (H b' (e' ++ String "/" e)%string).
  rewrite <- str_app_assoc. reflexivity.
Qed.

Lemma slash_prefixes_complete b e :
  b ∈ slash_prefixes (b ++ String "/" e)%string.
Proof.
  induction b as [|a b IH].
  - change (EmptyString ∈ [EmptyString] ++ (String "/" <$> slash_prefixes e)).
    apply elem_of_app. left. by apply list_elem_of_singleton.
  - change (String a b ∈ (if Ascii.eqb a "/" then [EmptyString] else []) ++
                         (String a <$> slash_prefixes (b ++ String "/" e)%string)).
    apply elem_of_app. right. by apply list_elem_of_fmap_2.
Qed.

Lemma run_steps_entry l k n :
  arena (run_steps l) !! k = Some n ->
  exists x, l !! k = Some x /\ n = node_for (run_steps (take k l)) x.
Proof.
  intros Hn. assert (is_Some (l !! k)) as [x Hx].
  { apply lookup_lt_is_Some. rewrite <- run_steps_length. by eapply lookup_lt_Some. }
  rewrite (run_steps_lookup _ _ _ Hx) in Hn. injection Hn as <-. eauto.
Qed.

(** The node of an entry whose parent directory is not listed as a
    directory entry hangs under the root. *)
Lemma unlisted_parent_node l x k :
  sort_by_path l !! k = Some x ->
  (forall d, d ∈ l -> is_blob d = false -> path d <> parent_path (path x)) ->
  parent (node_for (run_steps (take k (sort_by_path l))) x) = root_id.
Proof.
  intros Hk Hd. unfold node_for, parent_path in *.
  destruct (rpartition "/" (path x)) as [[pp sep] nm]. simpl in *.
  destruct (nodes (run_steps (take k (sort_by_path l))) !! pp) as [i|] eqn:Hi;
    [|reflexivity].
  destruct (run_steps_nodes_sound _ _ _ Hi) as [[_ ->]|(j & y & _ & Hy & Hyp & Hyb)];
    [reflexivity|].
  exfalso. apply (Hd y); [|done|done].
  rewrite <- (sort_by_path_perm l). apply (elem_of_take_elem_of y k).
  by eapply list_elem_of_lookup_2.
Qed.

(** ** Reconstruction of the paths by the tree *)

Section reconstruction.
Variable l : list item.
Hypothesis Hnodup : NoDup (path <$> l).

Local Abbreviation s := (sort_by_path l).
Local Abbreviation ar := (arena (run_steps (sort_by_path l))).

Lemma sorted_elem_of x : x ∈ s <-> x ∈ l.
Proof. by rewrite (sort_by_path_perm l). Qed.

Lemma sorted_nodup : NoDup (path <$> s).
Proof. by rewrite (sort_by_path_perm l). Qed.

Lemma sorted_same_path i i' a b :
  s !! i = Some a -> s !! i' = Some b -> path a = path b -> i = i'.
Proof.
  intros Ha Hb Hab. eapply NoDup_lookup; [apply sorted_nodup| |].
  - rewrite list_lookup_fmap, Ha. reflexivity.
  - rewrite list_lookup_fmap, Hb, Hab. reflexivity.
Qed.

(** Each entry of the listing has exactly one node, carrying its path. *)
Lemma node_of_entry x :
  x ∈ l -> exists k, s !! k = Some x /\
    ar !! k = Some (node_for (run_steps (take k s)) x) /\
    (forall k' n', ar !! k' = Some n' -> data n' = path x -> k' = k).
Proof.
  intros Hx. apply sorted_elem_of, list_elem_of_lookup in Hx as [k Hk].
  exists k. split; [done|]. split; [by apply run_steps_lookup|].
  intros k' n' Hn' Hd.
  assert (is_Some (s !! k')) as [y Hy].
  { apply lookup_lt_is_Some. apply lookup_lt_Some in Hn'.
    by rewrite run_steps_length in Hn'. }
  rewrite (run_steps_lookup _ _ _ Hy) in Hn'.
  injection Hn' as <-. rewrite node_for_data in Hd.
  by eapply sorted_same_path.
Qed.

Hypothesis Hroot : forall d, d ∈ l -> is_blob d = false -> path d <> "".

(** The listed parent directory of an entry sorts before it. *)
Lemma parent_sorted_before j x b e :
  s !! j = Some x -> ancestors_listed l (path x) ->
  rsplit_last "/" (path x) = Some (b, e) ->
  exists i d, i < j /\ s !! i = Some d /\ path d = b /\ is_blob d = false.
Proof.
  intros Hx Hanc Hr.
  destruct (Hanc b e (rsplit_last_Some_app _ _ _ _ Hr)) as (d & Hdl & Hdp & Hdb).
  apply sorted_elem_of, list_elem_of_lookup in Hdl as [i Hi].
  exists i, d. repeat split; try done.
  destruct (decide (i < j)) as [|Hge]; [done|]. exfalso.
  apply (not_le_extension b "/" e).
  rewrite <- (rsplit_last_Some_app _ _ _ _ Hr), <- Hdp.
  destruct (decide (j = i)) as [->|Hne].
  - rewrite Hi in Hx. injection Hx as ->. unfold String.le. reflexivity.
  - apply (StronglySorted_lookup_lt path_le s j i x d); try done.
    + apply sort_by_path_sorted.
    + lia.
Qed.

Lemma walk_sorted j :
  forall x, s !! j = Some x -> relative_path (path x) = true ->
  ancestors_listed l (path x) -> forall f, j < f ->
  walk_names ar f (S j) = Some (split_on "/" (path x)).
Proof.
  induction j as [j IH] using lt_wf_ind. intros x Hx Hrel Hanc f Hf.
  destruct f as [|f]; [lia|]. simpl.
  rewrite (run_steps_lookup _ _ _ Hx).
  unfold node_for, rpartition.
  destruct (rsplit_last "/" (path x)) as [[b e]|] eqn:Hr.
  - destruct (parent_sorted_before j x b e Hx Hanc Hr) as (i & d & Hij & Hd & Hdp & Hdb).
    pose proof (rsplit_last_Some_app _ _ _ _ Hr) as Hxp.
    assert (nodes (run_steps (take j s)) !! b = Some (S i)) as Hn.
    { assert (take j s !! i = Some d) as Hdt by (rewrite lookup_take_Some; done).
      destruct (run_steps_nodes_complete _ _ _ Hdt Hdb) as [i' Hi'].
      rewrite Hdp in Hi'. rewrite Hi'.
      destruct (run_steps_nodes_sound _ _ _ Hi') as [[? ?]|(j' & y & Heq & Hy & Hyp & _)];
        [discriminate|].
      injection Heq as ->. apply lookup_take_Some in Hy as [Hy _].
      f_equal. f_equal. eapply sorted_same_path; [exact Hy|exact Hd|congruence]. }
    rewrite Hn. simpl. rewrite (IH i Hij d Hd) by
      (rewrite ?Hdp; first [ eapply relative_path_prefix; rewrite <- Hxp; exact Hrel
                          | eapply ancestors_listed_parent; rewrite <- Hxp; exact Hanc
                          | lia ]).
    rewrite (rsplit_last_Some_split _ _ _ _ Hr), Hdp. reflexivity.
  - assert (nodes (run_steps (take j s)) !! "" = Some root_id) as ->.
    { apply run_steps_nodes_root. intros y Hy Hyb.
      apply elem_of_take_elem_of, sorted_elem_of in Hy. by apply Hroot. }
    rewrite (rsplit_last_None_split _ _ Hr). unfold root_id. by destruct f.
Qed.

Lemma full_path_sorted j x :
  s !! j = Some x -> relative_path (path x) = true ->
  ancestors_listed l (path x) -> full_path_of ar (S j) = Some (path x).
Proof.
  intros Hx Hrel Hanc. unfold full_path_of. rewrite (walk_sorted j x Hx Hrel Hanc).
  - rewrite concat_split_on. reflexivity.
  - rewrite run_steps_length. by eapply lookup_lt_Some.
Qed.
End reconstruction.

Lemma populate_tree_some l x :
  x ∈ l -> populate_tree l = Some (arena (run_steps (sort_by_path l))).
Proof. destruct l; [set_solver|reflexivity]. Qed.

Lemma node_in_tree l x :
  x ∈ l -> exists k, sort_by_path l !! k = Some x /\
    node_for (run_steps (take k (sort_by_path l))) x
      ∈ arena (run_steps (sort_by_path l)).
Proof.
  intros Hx. rewrite <- (sort_by_path_perm l) in Hx.
  apply list_elem_of_lookup in Hx as [k Hk]. exists k. split; [done|].
  eapply list_elem_of_lookup_2. by apply run_steps_lookup.
Qed.

(** ** Claims about the tree reconstruction *)

(** C1 (counterexample): for the listing [x/y.txt] alone, the leaf
    [y.txt] is not placed under a node named [x]. *)
Lemma C1_no_synthesized_parent :
  ~ (exists ar n pn, populate_tree [mk_item "x/y.txt" "blob"] = Some ar /\
       n ∈ ar /\ label n = "y.txt" /\ parent n <> root_id /\
       ar !! pred (parent n) = Some pn /\ label pn = "x").
Proof.
  rewrite populate_tree_ex2. intros (ar & n & pn & [= <-] & Hn & _ & Hp & _).
  apply list_elem_of_singleton in Hn as ->. by apply Hp.
Qed.

(** C1 (amended): an entry whose parent directory is not listed as a
    directory entry is not dropped: it gets a node, named after its last
    path segment, directly under the root; and no node for the missing
    directory is created: the tree has exactly one node per entry, each
    node is the node of an entry, and no directory node carries the
    missing directory's path. E.g. [x/y.txt] alone gives the root the
    single leaf [y.txt] and no node [x]. *)
Theorem populate_tree_unlisted_parent_root l x :
  x ∈ l ->
  (forall d, d ∈ l -> is_blob d = false -> path d <> parent_path (path x)) ->
  exists ar n, populate_tree l = Some ar /\ n ∈ ar /\ data n = path x /\
    label n = (rpartition "/" (path x)).2 /\ parent n = root_id /\
    length ar = length l /\
    (forall m, m ∈ ar ->
       exists it, it ∈ l /\ data m = path it /\ allow_expand m = negb (is_blob it)) /\
    (forall m, m ∈ ar -> allow_expand m = true -> data m <> parent_path (path x)).
Proof.
  intros Hx Hd. rewrite (populate_tree_some l x Hx).
  destruct (node_in_tree l x Hx) as (k & Hk & Hin).
  assert (forall m, m ∈ arena (run_steps (sort_by_path l)) ->
            exists it, it ∈ l /\ data m = path it /\ allow_expand m = negb (is_blob it))
    as Hfrom.
  { intros m Hm. apply list_elem_of_lookup in Hm as [k' Hk'].
    destruct (run_steps_entry _ _ _ Hk') as (y & Hy & ->).
    exists y. rewrite node_for_data, node_for_allow_expand.
    split; [|done]. rewrite <- (sort_by_path_perm l).
    by eapply list_elem_of_lookup_2. }
  eexists _, _. split; [reflexivity|]. split; [exact Hin|].
  split; [apply node_for_data|].
  split; [unfold node_for; destruct (rpartition "/" (path x)) as [[??]?]; reflexivity|].
  split; [exact (unlisted_parent_node l x k Hk Hd)|].
  split; [rewrite run_steps_length; apply Permutation_length, sort_by_path_perm|].
  split; [exact Hfrom|].
  intros m Hm Hexp. destruct (Hfrom m Hm) as (it & Hit & -> & Hb).
  apply Hd; [done|]. rewrite Hexp in Hb. by destruct (is_blob it).
Qed.

(** C2 (counterexample): for [x/y.txt] alone, the path spelled from the
    root to the leaf is ["y.txt"], not the entry's path. *)
Lemma C2_unlisted_parent_path_lost :
  ~ (forall ar k n, populate_tree [mk_item "x/y.txt" "blob"] = Some ar ->
       ar !! k = Some n -> full_path_of ar (S k) = Some (data n)).
Proof.
  intros H. specialize (H _ 0 _ populate_tree_ex2 eq_refl).
  vm_compute in H. discriminate.
Qed.

(** C2 (amended): with distinct paths, every file entry is exactly one
    leaf node, carrying its path. If the leaf's path is relative, no
    directory entry has the empty path, and every directory above the
    leaf (each prefix of its path ending just before a ['/']) is listed
    as a directory entry, then the names from the root down to the leaf
    are the path's segments, and joined by ['/'] they give the path back.
    If the leaf's parent directory is not listed as a directory entry,
    the leaf hangs directly under the root and the walk gives only its
    last segment. *)
Theorem populate_tree_file_leaf l x :
  NoDup (path <$> l) -> x ∈ l -> is_blob x = true ->
  exists ar k n, populate_tree l = Some ar /\ ar !! k = Some n /\
    data n = path x /\ allow_expand n = false /\
    (forall k' n', ar !! k' = Some n' -> data n' = path x -> k' = k) /\
    (relative_path (path x) = true ->
     (forall d, d ∈ l -> is_blob d = false -> path d <> "") ->
     ancestors_listed l (path x) ->
       walk_names ar (length ar) (S k) = Some (split_on "/" (path x)) /\
       full_path_of ar (S k) = Some (path x)) /\
    ((forall d, d ∈ l -> is_blob d = false -> path d <> parent_path (path x)) ->
       parent n = root_id /\
       walk_names ar (length ar) (S k) = Some [(rpartition "/" (path x)).2] /\
       full_path_of ar (S k) = Some (rpartition "/" (path x)).2).
Proof.
  intros Hnd Hx Hb. rewrite (populate_tree_some l x Hx).
  destruct (node_of_entry l Hnd x Hx) as (k & Hk & Hn & Huniq).
  eexists _, k, _. split; [reflexivity|]. split; [exact Hn|].
  rewrite node_for_data, node_for_allow_expand, Hb.
  split; [done|]. split; [done|]. split; [exact Huniq|]. split.
  - intros Hrel Hroot Hanc. split.
    + apply (walk_sorted l Hnd Hroot k x Hk Hrel Hanc).
      rewrite run_steps_length. by eapply lookup_lt_Some.
    + exact (full_path_sorted l Hnd Hroot k x Hk Hrel Hanc).
  - intros Hd. pose proof (unlisted_parent_node l x k Hk Hd) as Hp.
    assert (walk_names (arena (run_steps (sort_by_path l)))
              (length (arena (run_steps (sort_by_path l)))) (S k) =
            Some [(rpartition "/" (path x)).2]) as Hw.
    { assert (k < length (arena (run_steps (sort_by_path l)))) as Hlt
        by (rewrite run_steps_length; by eapply lookup_lt_Some).
      destruct (length (arena (run_steps (sort_by_path l)))) as [|f]; [lia|].
      simpl. rewrite Hn, Hp. unfold root_id.
      replace (walk_names _ f 0) with (Some (@nil string)) by (by destruct f).
      simpl. unfold node_for. by destruct (rpartition "/" (path x)) as [[??]?]. }
    split; [exact Hp|]. split; [exact Hw|].
    unfold full_path_of. rewrite Hw. reflexivity.
Qed.

(** C5 (counterexample): an entry with an empty path is not skipped. *)
Lemma C5_empty_path_kept :
  ~ (forall ar, populate_tree [mk_item "" "blob"] = Some ar ->
       forall n, n ∈ ar -> data n <> "").
Proof.
  intros H. apply (H [mk_tnode root_id "" "" false] ltac:(vm_compute; reflexivity)
                   (mk_tnode root_id "" "" false)).
  - left.
  - reflexivity.
Qed.

(** C5 (amended): an entry with an empty path does not make the build
    fail and is not skipped: it becomes a node with empty name and empty
    data (a leaf if it is a file). *)
Theorem populate_tree_empty_path_node l x :
  x ∈ l -> path x = "" ->
  exists ar n, populate_tree l = Some ar /\ n ∈ ar /\ data n = "" /\
    label n = "" /\ allow_expand n = negb (is_blob x).
Proof.
  intros Hx Hp. rewrite (populate_tree_some l x Hx).
  destruct (node_in_tree l x Hx) as (k & Hk & Hin).
  eexists _, _. split; [reflexivity|]. split; [exact Hin|].
  unfold node_for. rewrite Hp. simpl. auto.
Qed.

(** ** Facts about the listing client *)

Lemma get_repo_tree_cases net branch :
  get_repo_tree net branch =
  match net branch with
  | Json_ok d => (d, [branch])
  | Http_error _ =>
      if String.eqb branch "main" then
        (match net "master" with Json_ok d => d | _ => None end,
         ["main"; "master"])
      else (None, [branch])
  | Transport_error | Json_error => (None, [branch])
  end.
Proof.
  unfold get_repo_tree. simpl.
  destruct (net branch); try reflexivity.
  destruct (String.eqb branch "main") eqn:Hb; [|reflexivity].
  apply String.eqb_eq in Hb as ->. simpl.
  destruct (net "master"); reflexivity.
Qed.

Lemma get_tree_get_repo_tree net branch :
  get_tree net branch = get_repo_tree net branch.
Proof.
  unfold get_tree, get_repo_tree. simpl.
  destruct (net branch); reflexivity.
Qed.

(** The fuel of [get_repo_tree] is never exhausted. *)
Lemma get_repo_tree_fuel net n branch :
  get_repo_tree_go net (S (S n)) branch = get_repo_tree net branch.
Proof.
  unfold get_repo_tree. simpl.
  destruct (net branch); try reflexivity.
  all: destruct n; reflexivity.
Qed.

(** ** Claims about the listing client *)

(** C3: the requested branch is tried first; an HTTP error status on
    ["main"] leads to exactly one more request, for ["master"], whose
    outcome is the result; in every other case only one request is made;
    a transport error yields [None].  The TUI's [get_tree] behaves the
    same. *)
Theorem fetch_listing_fallback net branch :
  (forall net' branch', get_tree net' branch' = get_repo_tree net' branch') /\
  let '(res, log) := get_repo_tree net branch in
  (exists rest, log = branch :: rest) /\
  ((branch = "main" /\ exists st, net branch = Http_error st) ->
     log = ["main"; "master"] /\ res = fst (get_repo_tree net "master") /\
     (get_repo_tree net "master").2 = ["master"]) /\
  (~ (branch = "main" /\ exists st, net branch = Http_error st) ->
     log = [branch]) /\
  (net branch = Transport_error -> res = None).
Proof.
  split; [exact get_tree_get_repo_tree|].
  rewrite get_repo_tree_cases.
  destruct (net branch) as [|st| |d] eqn:Hn; simpl.
  - split; [eauto|]. split; [intros [_ [st Hst]]; discriminate|]. auto.
  - destruct (String.eqb branch "main") eqn:Hb.
    + apply String.eqb_eq in Hb as ->.
      rewrite (get_repo_tree_cases net "master"). simpl.
      split; [eauto|]. split.
      * intros _. split; [reflexivity|].
        destruct (net "master"); auto.
      * split; [|discriminate]. intros Hn'. exfalso. apply Hn'. eauto.
    + apply String.eqb_neq in Hb.
      split; [eauto|]. split; [intros [? _]; congruence|].
      split; [reflexivity|discriminate].
  - split; [eauto|]. split; [intros [_ [st Hst]]; discriminate|]. auto.
  - split; [eauto|]. split; [intros [_ [st Hst]]; discriminate|].
    split; [reflexivity|discriminate].
Qed.

(** C10: a successful response for ["main"] without a ['tree'] field
    yields [None] after that single request, in both clients; and the
    ["master"] request only ever follows an HTTP error status on the
    requested branch. *)
Theorem missing_tree_no_fallback net (H : net "main" = Json_ok None) :
  get_repo_tree net "main" = (None, ["main"]) /\
  get_tree net "main" = (None, ["main"]) /\
  (forall branch, "master" ∈ (get_repo_tree net branch).2 -> branch <> "master" ->
     exists st, net branch = Http_error st).
Proof.
  assert (get_repo_tree net "main" = (None, ["main"])) as Hm
    by (rewrite get_repo_tree_cases, H; reflexivity).
  split; [exact Hm|]. split; [rewrite (get_tree_get_repo_tree net "main"); exact Hm|].
  intros branch Hin Hne. rewrite get_repo_tree_cases in Hin.
  destruct (net branch) as [|st| |d]; eauto; simpl in Hin;
    apply list_elem_of_singleton in Hin; congruence.
Qed.

(** ** Facts about the analyzers *)

Lemma analyze_languages_snoc tree x :
  analyze_languages (tree ++ [x]) = count_language (analyze_languages tree) x.
Proof. unfold analyze_languages. by rewrite fold_left_app. Qed.

(** ** Claims about the analyzers *)

(** C4 (counterexample): a file named [.py], whose only dot is at
    position 0, is counted as Python. *)
Lemma C4_dotfile_counted :
  analyze_languages [mk_item ".py" "blob"] !! "Python" = Some 1.
Proof. vm_compute. reflexivity. Qed.

(** C4 (amended): the count of a language is the number of file entries
    whose whole path contains a ['.'] and whose text after the last ['.'],
    prefixed with ['.'], the fixed table maps to that language; languages
    with no such entry are absent.  A path whose only dot is at position 0
    (such as [.py]) is counted too. *)
Theorem analyze_languages_counts tree lang :
  analyze_languages tree !! lang =
  match length (filter (fun it => is_blob it = true /\
                                  language_of (path it) = Some lang) tree) with
  | 0 => None
  | n => Some n
  end.
Proof.
  induction tree as [|x tree IH] using rev_ind; [reflexivity|].
  rewrite analyze_languages_snoc, filter_app, length_app.
  rewrite (filter_singleton _ x []). simpl.
  unfold count_language.
  set (n := length (filter (fun it => is_blob it = true /\
                                      language_of (path it) = Some lang) tree)) in *.
  case_decide as Hd.
  - destruct Hd as [Hb Hl]. rewrite Hb.
    unfold language_of in Hl.
    destruct (rsplit_last "." (path x)) as [[bf af]|]; [|discriminate].
    rewrite Hl, lookup_insert_eq, IH. simpl.
    destruct n; simpl; f_equal; lia.
  - rewrite Nat.add_0_r, <- IH.
    destruct (is_blob x) eqn:Hb; [|reflexivity].
    destruct (rsplit_last "." (path x)) as [[bf af]|] eqn:Hr; [|reflexivity].
    destruct (lang_map !! ("." ++ af)%string) as [lang'|] eqn:Hl; [|reflexivity].
    rewrite lookup_insert_ne; [reflexivity|].
    intros ->. apply Hd. split; [done|]. unfold language_of. by rewrite Hr.
Qed.

(** C6 (counterexample): a directory entry whose last segment is a
    manifest name is reported too. *)
Lemma C6_directory_matched :
  analyze_dependencies [mk_item "pkg/package.json" "tree"] = ["package.json"].
Proof. vm_compute. reflexivity. Qed.

(** C6 (amended): the dependency detector inspects the last path segment
    of every entry, file or directory, and returns those that are in the
    fixed list of manifest names, without duplicates, in ascending string
    order. *)
Theorem analyze_dependencies_spec tree :
  StronglySorted String.le (analyze_dependencies tree) /\
  NoDup (analyze_dependencies tree) /\
  (forall b, b ∈ analyze_dependencies tree <->
     b ∈ dep_files /\ exists it, it ∈ tree /\ basename (path it) = b).
Proof.
  unfold analyze_dependencies.
  split; [apply StronglySorted_merge_sort; apply _|].
  split.
  - rewrite merge_sort_Permutation. apply NoDup_remove_dups.
  - intros b.
    rewrite merge_sort_Permutation, elem_of_remove_dups, list_elem_of_filter,
      list_elem_of_fmap.
    naive_solver.
Qed.

Lemma structure_docker_filter tree :
  filter (fun f => f = Dockerized) (analyze_project_structure tree) =
  if existsb (fun p => endswith p "docker-compose.yml" || endswith p "Dockerfile")
       (path <$> filter (fun it => is_blob it = true) tree)
  then [Dockerized] else [].
Proof.
  unfold analyze_project_structure. repeat case_match; reflexivity.
Qed.

(** C7 (counterexample): a file [api.Dockerfile], not named exactly
    [Dockerfile], yields the containerization finding. *)
Lemma C7_suffix_matched :
  analyze_project_structure [mk_item "api.Dockerfile" "blob"] = [Dockerized].
Proof. vm_compute. reflexivity. Qed.

(** C7 (amended): the containerization finding is emitted exactly when
    some file entry's whole path ends with [docker-compose.yml] or with
    [Dockerfile] (at any depth, and also for names such as
    [api.Dockerfile]); it is emitted at most once. *)
Theorem structure_docker tree :
  (Dockerized ∈ analyze_project_structure tree <->
     exists it, it ∈ tree /\ is_blob it = true /\
       (endswith (path it) "docker-compose.yml" = true \/
        endswith (path it) "Dockerfile" = true)) /\
  length (filter (fun f => f = Dockerized) (analyze_project_structure tree)) <= 1.
Proof.
  assert (Dockerized ∈ analyze_project_structure tree <->
          Dockerized ∈ filter (fun f => f = Dockerized) (analyze_project_structure tree))
    as Hf by (rewrite list_elem_of_filter; naive_solver).
  rewrite Hf, structure_docker_filter.
  destruct (existsb _ _) eqn:E.
  - split; [|simpl; lia]. split; [intros _|intros _; left].
    apply existsb_exists in E as (p & Hp & He).
    apply list_elem_of_In, list_elem_of_fmap in Hp as (it & -> & Hit).
    apply list_elem_of_filter in Hit as [Hb Hit].
    apply orb_true_iff in He. eauto.
  - split; [|simpl; lia]. split; [intros H; inversion H|].
    intros (it & Hit & Hb & He). exfalso.
    assert (existsb (fun p => endswith p "docker-compose.yml" || endswith p "Dockerfile")
              (path <$> filter (fun it => is_blob it = true) tree) = true) as E'.
    { apply existsb_exists. exists (path it). split.
      - apply list_elem_of_In, list_elem_of_fmap_2, list_elem_of_filter. done.
      - by apply orb_true_iff. }
    congruence.
Qed.

(** ** Claims about the CLI *)

Lemma split_on_length c s : length (split_on c s) = S (count_char c s).
Proof.
  induction s as [|a s IH]; simpl; [reflexivity|].
  destruct (Ascii.eqb a c); simpl.
  - rewrite IH. reflexivity.
  - destruct (split_on c s) as [|w ws] eqn:Hs; [by apply split_on_nonempty in Hs|].
    exact IH.
Qed.

Lemma is_Some_None_iff {A} : is_Some (@None A) <-> False.
Proof. split; [intros [? ?]; discriminate|done]. Qed.

(** C8 (counterexample): with metadata and an empty listing both
    retrieved, the CLI exits with code 1, whatever Rich does. *)
Lemma C8_empty_listing_exit_1 :
  ~ (exists rich, (main "o/r" (Meta_ok [("description", "d")])
                        (fun _ => Json_ok (Some [])) rich).1.1 = 0).
Proof.
  intros [rich H]. unfold main in H. simpl in H.
  destruct (accepts rich (status_markup "o/r")); discriminate.
Qed.

(** C8 (amended): once [main] runs, it exits with 0 or 1. It exits with
    0, printing the report, exactly when the identifier has exactly one
    ['/'], Rich accepts the status line (which holds the identifier), the
    metadata request returns a non-empty object, the listing fetch
    returns a non-empty listing, and Rich accepts every markup string of
    the report (the panel title with the identifier, the panel body with
    the metadata's counts and description, the dependencies row and the
    red-flags row with the flagged paths). An empty listing or empty
    metadata object counts as a failure, and markup Rich refuses in that
    repository-supplied text ends the program with 1 too. *)
Theorem main_exit_code repo meta net rich :
  let '(code, _, rep) := main repo meta net rich in
  (code = 0 \/ code = 1) /\
  (code = 0 <-> count_char "/" repo = 1 /\
                accepts rich (status_markup repo) = true /\
                truthy (get_repo_metadata meta) = true /\
                truthy (get_repo_tree net "main").1 = true /\
                forallb (accepts rich)
                  (report_markup repo (default [] (get_repo_metadata meta))
                                 (default [] (get_repo_tree net "main").1)) = true) /\
  (code = 0 <-> is_Some rep).
Proof.
  unfold main. pose proof (split_on_length "/" repo) as Hlen.
  destruct (split_on "/" repo) as [|a [|b [|c l]]]; simpl in Hlen.
  - lia.
  - rewrite is_Some_None_iff. repeat split; try lia.
  - destruct (accepts rich (status_markup repo)) eqn:Hs;
      [|rewrite is_Some_None_iff; split; [lia|]; split; [|done];
        split; [discriminate|intros (_ & ? & _); discriminate]].
    destruct (get_repo_tree net "main") as [ft log]. cbn -[forallb report_markup].
    destruct (get_repo_metadata meta) as [[|f md]|];
      destruct ft as [[|it ft]|]; cbn -[forallb report_markup];
      rewrite ?is_Some_None_iff;
      try (repeat split; try lia; try discriminate;
           try (intros (_ & _ & ? & _); discriminate);
           try (intros (_ & _ & _ & ? & _); discriminate); fail).
    destruct (forallb _ _) eqn:Hr; cbn -[forallb report_markup].
    + split; [lia|]. split; [split; [intros _; repeat split; auto; lia|done]|].
      split; [intros _; eexists; reflexivity|done].
    + split; [lia|]. split; [split; [discriminate|intros (_ & _ & _ & _ & ?); discriminate]|].
      split; [discriminate|intros [? ?]; discriminate].
  - rewrite is_Some_None_iff. repeat split; try lia.
Qed.

(** C9: an identifier without exactly one ['/'] makes the CLI exit with
    code 1 before any request is made. *)
Theorem main_malformed_repo repo meta net rich (H : count_char "/" repo <> 1) :
  main repo meta net rich = (1, [], None).
Proof.
  unfold main. pose proof (split_on_length "/" repo) as Hlen.
  destruct (split_on "/" repo) as [|a [|b [|c l]]]; simpl in Hlen;
    try reflexivity; lia.
Qed.

(** ** Witnesses *)

Lemma populate_tree_unlisted_parent_root_witness :
  populate_tree [mk_item "x/y.txt" "blob"] = Some [mk_tnode 0 "y.txt" "x/y.txt" false] /\
  exists ar n, populate_tree [mk_item "x/y.txt" "blob"] = Some ar /\ n ∈ ar /\
    data n = "x/y.txt" /\ label n = "y.txt" /\ parent n = root_id /\
    length ar = 1 /\
    (forall m, m ∈ ar -> allow_expand m = true -> data m <> "x").
Proof.
  split; [vm_compute; reflexivity|].
  destruct (populate_tree_unlisted_parent_root [mk_item "x/y.txt" "blob"]
              (mk_item "x/y.txt" "blob"))
    as (ar & n & Hp & Hn & Hd & Hl & Hpar & Hlen & _ & Hdir).
  - left.
  - intros d Hd Hb. inversion Hd; subst; [discriminate|].
    match goal with H : _ ∈ [] |- _ => inversion H end.
  - exists ar, n. repeat split; assumption.
Defined.

Lemma populate_tree_file_leaf_witness :
  (exists ar k n,
    populate_tree [mk_item "a" "tree"; mk_item "a/b.txt" "blob"; mk_item "q/r" "blob"] =
      Some ar /\
    ar !! k = Some n /\ data n = "a/b.txt" /\ allow_expand n = false /\
    full_path_of ar (S k) = Some "a/b.txt") /\
  (exists ar k n,
    populate_tree [mk_item "x/y.txt" "blob"] = Some ar /\
    ar !! k = Some n /\ data n = "x/y.txt" /\ parent n = root_id /\
    full_path_of ar (S k) = Some "y.txt").
Proof.
  split.
  - destruct (populate_tree_file_leaf
                [mk_item "a" "tree"; mk_item "a/b.txt" "blob"; mk_item "q/r" "blob"]
                (mk_item "a/b.txt" "blob"))
      as (ar & k & n & Hp & Hk & Hd & Ha & _ & Hw & _).
    + apply (bool_decide_unpack _). vm_compute. reflexivity.
    + right. left.
    + reflexivity.
    + exists ar, k, n. repeat split; try assumption.
      apply Hw.
      * reflexivity.
      * intros d Hd' _. inversion Hd'; subst; [discriminate|].
        match goal with H : _ ∈ _ |- _ => inversion H; subst end; [discriminate|].
        match goal with H : _ ∈ _ |- _ => inversion H; subst end; [discriminate|].
        match goal with H : _ ∈ [] |- _ => inversion H end.
      * intros b e Hbe. pose proof (slash_prefixes_complete b e) as Hb.
        rewrite <- Hbe in Hb. vm_compute in Hb.
        apply list_elem_of_singleton in Hb as ->.
        exists (mk_item "a" "tree"). split; [left|]. split; reflexivity.
  - destruct (populate_tree_file_leaf [mk_item "x/y.txt" "blob"]
                (mk_item "x/y.txt" "blob"))
      as (ar & k & n & Hp & Hk & Hd & Ha & _ & _ & Hu).
    + apply (bool_decide_unpack _). vm_compute. reflexivity.
    + left.
    + reflexivity.
    + destruct Hu as (Hpar & _ & Hf).
      * intros d Hd' Hb. inversion Hd'; subst; [discriminate|].
        match goal with H : _ ∈ [] |- _ => inversion H end.
      * exists ar, k, n. repeat split; assumption.
Defined.

Lemma populate_tree_empty_path_node_witness :
  exists ar n, populate_tree [mk_item "" "blob"] = Some ar /\ n ∈ ar /\
    data n = "" /\ label n = "" /\ allow_expand n = false.
Proof.
  apply (populate_tree_empty_path_node [mk_item "" "blob"] (mk_item "" "blob")).
  - left.
  - reflexivity.
Defined.

Lemma missing_tree_no_fallback_witness :
  get_repo_tree (fun _ => Json_ok None) "main" = (None, ["main"]) /\
  get_tree (fun _ => Json_ok None) "main" = (None, ["main"]) /\
  (forall branch, "master" ∈ (get_repo_tree (fun _ => Json_ok None) branch).2 ->
     branch <> "master" -> exists st, Json_ok None = Http_error st).
Proof. apply (missing_tree_no_fallback (fun _ => Json_ok None)). reflexivity. Defined.

Lemma main_malformed_repo_witness :
  count_char "/" "notarepo" <> 1 /\
  main "notarepo" (Meta_ok [("description", "d")]) (fun _ => Json_ok None) accept_all =
  (1, [], None).
Proof.
  split; [simpl; lia|].
  apply main_malformed_repo. simpl. lia.
Defined.

(** ** Further properties: the tree reconstruction *)

Lemma run_steps_data l : data <$> arena (run_steps l) = path <$> l.
Proof.
  apply list_eq. intros i. rewrite !list_lookup_fmap.
  destruct (l !! i) as [x|] eqn:Hx.
  - rewrite (run_steps_lookup _ _ _ Hx). simpl. by rewrite node_for_data.
  - apply lookup_ge_None in Hx.
    rewrite (proj2 (lookup_ge_None _ _)); [done|]. by rewrite run_steps_length.
Qed.

Lemma run_steps_parent_le l k n :
  arena (run_steps l) !! k = Some n -> parent n <= k.
Proof.
  intros Hn. destruct (run_steps_entry _ _ _ Hn) as (x & Hx & ->).
  unfold node_for. destruct (rpartition "/" (path x)) as [[pp sep] nm]. simpl.
  destruct (nodes (run_steps (take k l)) !! pp) as [i|] eqn:Hi; simpl;
    [|unfold root_id; lia].
  destruct (run_steps_nodes_sound _ _ _ Hi) as [[_ ->]|(j & y & -> & Hy & _)];
    [unfold root_id; lia|].
  apply lookup_take_Some in Hy as [_ ?]. lia.
Qed.

Lemma run_steps_parent_dir l k n j :
  arena (run_steps l) !! k = Some n -> parent n = S j ->
  exists m, arena (run_steps l) !! j = Some m /\ allow_expand m = true.
Proof.
  intros Hn Hp. destruct (run_steps_entry _ _ _ Hn) as (x & Hx & ->).
  unfold node_for in Hp. destruct (rpartition "/" (path x)) as [[pp sep] nm].
  simpl in Hp.
  destruct (nodes (run_steps (take k l)) !! pp) as [i|] eqn:Hi; simpl in Hp;
    [|discriminate].
  destruct (run_steps_nodes_sound _ _ _ Hi) as [[_ ->]|(j' & y & -> & Hy & _ & Hb)];
    [discriminate|].
  injection Hp as ->. apply lookup_take_Some in Hy as [Hy _].
  exists (node_for (run_steps (take j l)) y). split; [by apply run_steps_lookup|].
  by rewrite node_for_allow_expand, Hb.
Qed.

Lemma walk_names_total ar f id :
  (forall k n, ar !! k = Some n -> parent n <= k) ->
  id <= f -> id <= length ar -> is_Some (walk_names ar f id).
Proof.
  intros Hpar. revert id. induction f as [|f IH]; intros id Hf Hl.
  - assert (id = 0) as -> by lia. by eexists.
  - destruct id as [|k]; [by eexists|]. simpl.
    assert (is_Some (ar !! k)) as [n Hn] by (apply lookup_lt_is_Some; lia).
    rewrite Hn. pose proof (Hpar k n Hn).
    destruct (IH (parent n)) as [names ->]; [lia|lia|]. by eexists.
Qed.

Lemma fmap_inj_elem_of {A B} (f : A -> B) (l : list A) x y :
  NoDup (f <$> l) -> x ∈ l -> y ∈ l -> f x = f y -> x = y.
Proof.
  intros Hnd Hx Hy Hxy.
  apply list_elem_of_lookup in Hx as [i Hi], Hy as [j Hj].
  assert (i = j) as ->.
  { eapply NoDup_lookup; [exact Hnd| |].
    - by rewrite list_lookup_fmap, Hi.
    - by rewrite list_lookup_fmap, Hj, Hxy. }
  congruence.
Qed.

(** X1: [populate_tree] returns [None] exactly on the empty listing;
    otherwise it creates exactly one node per entry: the nodes' stored
    paths are the entries' paths (up to order), and each node is
    expandable exactly when its entry is not a file. *)
Theorem populate_tree_keeps_entries l :
  (populate_tree l = None <-> l = []) /\
  (forall ar, populate_tree l = Some ar ->
     length ar = length l /\ data <$> ar ≡ₚ path <$> l /\
     (forall k n, ar !! k = Some n ->
        exists it, it ∈ l /\ data n = path it /\ allow_expand n = negb (is_blob it))).
Proof.
  split; [destruct l; split; done|].
  intros ar Hp. destruct l as [|x0 l0]; [discriminate|].
  injection Hp as <-. set (l := x0 :: l0).
  split; [|split].
  - rewrite run_steps_length. apply Permutation_length, sort_by_path_perm.
  - rewrite run_steps_data. by rewrite (sort_by_path_perm l).
  - intros k n Hn. destruct (run_steps_entry _ _ _ Hn) as (x & Hx & ->).
    exists x. split; [|by rewrite node_for_data, node_for_allow_expand].
    rewrite <- (sort_by_path_perm l). by eapply list_elem_of_lookup_2.
Qed.

(** X2: in the tree [populate_tree] builds, every node's parent was
    created before it (its id is smaller), every parent other than the
    root is a directory node (files never get children), and walking up
    from any node reaches the root. *)
Theorem populate_tree_parents l ar :
  populate_tree l = Some ar ->
  forall k n, ar !! k = Some n ->
    parent n <= k /\
    (forall j, parent n = S j -> exists m, ar !! j = Some m /\ allow_expand m = true) /\
    exists names, walk_names ar (length ar) (S k) = Some names.
Proof.
  intros Hp. destruct l as [|x0 l0]; [discriminate|]. injection Hp as <-.
  intros k n Hn. split; [|split].
  - by eapply run_steps_parent_le.
  - intros j Hj. by eapply run_steps_parent_dir.
  - apply walk_names_total.
    + intros k' n'. apply run_steps_parent_le.
    + apply lookup_lt_Some in Hn. lia.
    + apply lookup_lt_Some in Hn. lia.
Qed.

(** X3: when the paths are distinct, the order of the listing does not
    matter: any reordering gives the same tree. *)
Theorem populate_tree_order_independent l l' :
  NoDup (path <$> l) -> l ≡ₚ l' -> populate_tree l = populate_tree l'.
Proof.
  intros Hnd Hp.
  assert (sort_by_path l = sort_by_path l') as Hs.
  { apply (StronglySorted_unique_strong path_le).
    - intros x1 x2 Hx1 Hx2 H12 H21.
      rewrite (sort_by_path_perm l) in Hx1.
      rewrite (sort_by_path_perm l'), <- Hp in Hx2.
      apply (fmap_inj_elem_of path l); try done.
      by apply (anti_symm String.le).
    - apply sort_by_path_sorted.
    - apply sort_by_path_sorted.
    - by rewrite !sort_by_path_perm. }
  unfold populate_tree. rewrite Hs.
  destruct l as [|x l0], l' as [|y l0']; try reflexivity.
  - apply Permutation_nil_l in Hp. discriminate.
  - apply Permutation_nil_r in Hp. discriminate.
Qed.

(** X4: the TUI worker shows the tree exactly when the identifier has
    exactly one ['/'] and the listing fetch returns a non-empty listing,
    and the tree shown is [populate_tree] of that listing; an invalid
    identifier is reported before any request; the "No file data"
    message of [populate_tree] is never reached from the worker. *)
Theorem load_repo_data_outcomes repo net :
  match load_repo_data repo net with
  | (Tree_view ar, _) =>
      count_char "/" repo = 1 /\
      exists d, (get_tree net "main").1 = Some d /\ d <> [] /\ populate_tree d = Some ar
  | (Status_line Msg_invalid_format, log) => count_char "/" repo <> 1 /\ log = []
  | (Status_line Msg_could_not_load, _) =>
      count_char "/" repo = 1 /\ truthy (get_tree net "main").1 = false
  | (Status_line Msg_no_file_data, _) => False
  end.
Proof.
  unfold load_repo_data. pose proof (split_on_length "/" repo) as Hlen.
  destruct (split_on "/" repo) as [|a [|b [|c l]]]; simpl in Hlen.
  - lia.
  - split; [lia|reflexivity].
  - destruct (get_tree net "main") as [td log]. simpl.
    destruct td as [[|it d]|]; simpl.
    + split; [lia|reflexivity].
    + split; [lia|]. eexists. split; [reflexivity|]. split; [discriminate|reflexivity].
    + split; [lia|reflexivity].
  - split; [lia|reflexivity].
Qed.

(** ** Further properties: the analyzers of [seer.py] *)

Lemma language_count_lookup tree lang :
  analyze_languages tree !! lang =
  match length (filter (fun it => is_blob it = true /\
                                  language_of (path it) = Some lang) tree) with
  | 0 => None
  | n => Some n
  end.
Proof.
  induction tree as [|x tree IH] using rev_ind; [reflexivity|].
  rewrite analyze_languages_snoc, filter_app, length_app.
  rewrite (filter_singleton _ x []). simpl. unfold count_language.
  destruct (decide (is_blob x = true /\ language_of (path x) = Some lang))
    as [[Hb Hl]|Hd].
  - rewrite Hb. unfold language_of in Hl.
    destruct (rsplit_last "." (path x)) as [[bf af]|]; [|discriminate].
    rewrite Hl, lookup_insert_eq, IH.
    destruct (length _); simpl; f_equal; lia.
  - rewrite Nat.add_0_r, <- IH.
    destruct (is_blob x) eqn:Hb; [|reflexivity].
    destruct (rsplit_last "." (path x)) as [[bf af]|] eqn:Hr; [|reflexivity].
    destruct (lang_map !! ("." ++ af)%string) as [lang'|] eqn:Hl; [|reflexivity].
    rewrite lookup_insert_ne; [reflexivity|].
    intros ->. apply Hd. split; [done|]. unfold language_of. by rewrite Hr.
Qed.

Lemma length_filter_and {A} (P Q : A -> Prop)
    `{!forall x, Decision (P x), !forall x, Decision (Q x)} (l : list A) :
  length (filter (fun x => P x /\ Q x) l) <= length (filter P l).
Proof.
  induction l as [|x l IH]; [done|].
  rewrite !filter_cons. repeat case_decide; simpl; naive_solver lia.
Qed.

(** X5: the language statistics depend only on which entries are listed,
    not on their order. *)
Theorem analyze_languages_permutation tree tree' :
  tree ≡ₚ tree' -> analyze_languages tree = analyze_languages tree'.
Proof.
  intros Hp. apply map_eq. intros lang. rewrite !language_count_lookup.
  by rewrite Hp.
Qed.

(** X6: every count in the language statistics is at least 1 and at most
    the number of files in the listing, and every language reported is a
    value of the extension table. *)
Theorem analyze_languages_values tree lang n :
  analyze_languages tree !! lang = Some n ->
  1 <= n <= length (filter (fun it => is_blob it = true) tree) /\
  exists ext, lang_map !! ext = Some lang.
Proof.
  rewrite language_count_lookup.
  destruct (filter _ tree) as [|it rest] eqn:Hf; [discriminate|].
  intros [= <-]. split.
  - split; [lia|]. change (S (length rest)) with (length (it :: rest)).
    rewrite <- Hf. apply length_filter_and.
  - assert (it ∈ filter (fun it => is_blob it = true /\
                                   language_of (path it) = Some lang) tree)
      as Hit by (rewrite Hf; left).
    apply list_elem_of_filter in Hit as [[_ Hl] _].
    unfold language_of in Hl.
    destruct (rsplit_last "." (path it)) as [[bf af]|]; [|discriminate].
    eauto.
Qed.


Lemma existsb_paths (Q : item -> Prop) `{!forall x, Decision (Q x)}
    (P : string -> bool) tree :
  existsb P (path <$> filter Q tree) = true <->
  exists it, it ∈ tree /\ Q it /\ P (path it) = true.
Proof.
  rewrite existsb_exists. split.
  - intros (p & Hp & HP). apply list_elem_of_In, list_elem_of_fmap in Hp
      as (it & -> & Hit).
    apply list_elem_of_filter in Hit as [HQ Hit]. eauto.
  - intros (it & Hit & HQ & HP). exists (path it). split; [|done].
    apply list_elem_of_In, list_elem_of_fmap_2, list_elem_of_filter. done.
Qed.

Lemma structure_elem_of tree f :
  let paths := path <$> filter (fun it => is_blob it = true) tree in
  let dirs := path <$> filter (fun it => type_ it = "tree") tree in
  f ∈ analyze_project_structure tree <->
  match f with
  | Src_layout => existsb (fun p => startswith p "src/") paths = true
  | Monorepo => (existsb (fun p => String.eqb (first_segment p) "packages") paths
                 || existsb (fun p => String.eqb (first_segment p) "apps") paths) = true
  | Django => existsb (fun p => endswith p "manage.py") paths = true
  | Dockerized => existsb (fun p => endswith p "docker-compose.yml"
                                    || endswith p "Dockerfile") paths = true
  | CI_CD => existsb (fun p => String.eqb p ".github/workflows") dirs = true
  end.
Proof.
  simpl. unfold analyze_project_structure.
  destruct f; repeat case_match;
    rewrite ?elem_of_app, ?list_elem_of_singleton; set_solver.
Qed.

(** X8: the structure report lists each finding at most once, always in
    the fixed order Src_layout, Monorepo, Django, Dockerized, CI_CD. *)
Theorem analyze_project_structure_order tree :
  analyze_project_structure tree `sublist_of`
    [Src_layout; Monorepo; Django; Dockerized; CI_CD].
Proof.
  unfold analyze_project_structure.
  repeat case_match; simpl;
    repeat first [apply sublist_nil | apply sublist_skip | apply sublist_cons].
Qed.

(** X9: the other structure findings: [src/] layout when some file path
    starts with ["src/"]; monorepo when some file (not a directory) has
    first segment ["packages"] or ["apps"]; Django when some file path
    ends with ["manage.py"]; CI/CD when a directory entry has exactly the
    path [".github/workflows"]. *)
Theorem analyze_project_structure_rules tree :
  (Src_layout ∈ analyze_project_structure tree <->
     exists it, it ∈ tree /\ is_blob it = true /\ startswith (path it) "src/" = true) /\
  (Monorepo ∈ analyze_project_structure tree <->
     exists it, it ∈ tree /\ is_blob it = true /\
       (first_segment (path it) = "packages" \/ first_segment (path it) = "apps")) /\
  (Django ∈ analyze_project_structure tree <->
     exists it, it ∈ tree /\ is_blob it = true /\ endswith (path it) "manage.py" = true) /\
  (CI_CD ∈ analyze_project_structure tree <->
     exists it, it ∈ tree /\ type_ it = "tree" /\ path it = ".github/workflows").
Proof.
  rewrite !structure_elem_of. simpl.
  rewrite orb_true_iff, !existsb_paths.
  split; [done|]. split; [|split; [done|]].
  - setoid_rewrite String.eqb_eq. naive_solver.
  - setoid_rewrite String.eqb_eq. done.
Qed.

(** ** Further properties: the secret/risk detector *)

Lemma lower_app a b : lower (a ++ b) = (lower a ++ lower b)%string.
Proof. induction a as [|c a IH]; simpl; [reflexivity|]. by rewrite IH. Qed.

Lemma prefix_app_r k s v :
  String.prefix k s = true -> String.prefix k (s ++ v)%string = true.
Proof.
  revert s. induction k as [|a k IH]; intros s H; [by destruct (s ++ v)%string|].
  destruct s as [|b s]; simpl in *; [discriminate|].
  destruct (ascii_dec a b); [by apply IH|discriminate].
Qed.

Lemma contains_app_r s v k :
  contains s k = true -> contains (s ++ v)%string k = true.
Proof.
  induction s as [|a s IH]; cbn [contains append]; intros H.
  - rewrite orb_false_r in H. destruct k; [|discriminate].
    destruct v; reflexivity.
  - apply orb_true_iff in H as [H|H]; apply orb_true_iff.
    + left. exact (prefix_app_r k (String a s) v H).
    + right. by apply IH.
Qed.

Lemma contains_app_l u s k :
  contains s k = true -> contains (u ++ s)%string k = true.
Proof.
  induction u as [|a u IH]; intros H; [done|].
  change (String.prefix k (String a (u ++ s)) || contains (u ++ s) k = true).
  apply orb_true_iff. right. by apply IH.
Qed.

(** X10: the red-flag list keeps the listing's order and never adds a
    path that is not listed; and an entry is flagged as soon as some part
    of its path would be flagged on its own, so for example everything
    under a flagged directory name is flagged as well. *)
Theorem analyze_code_smells_props tree :
  analyze_code_smells tree `sublist_of` path <$> tree /\
  (forall it u p v, it ∈ tree -> path it = (u ++ p ++ v)%string ->
     smelly p = true -> path it ∈ analyze_code_smells tree).
Proof.
  split.
  - unfold analyze_code_smells. apply fmap_sublist, sublist_filter.
  - intros it u p v Hit Hp Hs. unfold analyze_code_smells.
    apply list_elem_of_fmap_2, list_elem_of_filter. split; [|done].
    unfold smelly in *. rewrite Hp, !lower_app.
    apply existsb_exists in Hs as (k & Hk & Hc). apply existsb_exists.
    exists k. split; [done|]. by apply contains_app_l, contains_app_r.
Qed.

(** ** Further properties: labels, fetches and the CLI *)

Lemma rsplit_last_no_sep c s b e :
  rsplit_last c s = Some (b, e) -> count_char c e = 0.
Proof.
  revert b e. induction s as [|a s IH]; simpl; intros b e H; [discriminate|].
  destruct (rsplit_last c s) as [[b' e']|] eqn:Hr.
  - injection H as <- <-. by apply (IH b').
  - destruct (Ascii.eqb a c); [|discriminate]. injection H as <- <-.
    clear IH. induction s as [|a' s IH']; simpl in *; [reflexivity|].
    destruct (rsplit_last c s) as [[??]|]; [discriminate|].
    destruct (Ascii.eqb a' c); [discriminate|]. by apply IH'.
Qed.

Lemma rsplit_last_None_count c s :
  rsplit_last c s = None -> count_char c s = 0.
Proof.
  induction s as [|a s IH]; simpl; intros H; [reflexivity|].
  destruct (rsplit_last c s) as [[??]|]; [discriminate|].
  destruct (Ascii.eqb a c); [discriminate|]. by apply IH.
Qed.

(** X11: the name the TUI shows after a node's icon is the last segment
    of the node's path: the path ends with the name, the name has no
    ['/'], and the name is preceded by a ['/'] unless it is the whole
    path. *)
Theorem populate_tree_labels l ar :
  populate_tree l = Some ar ->
  forall k n, ar !! k = Some n ->
    count_char "/" (label n) = 0 /\
    (data n = label n \/ exists pre, data n = (pre ++ "/" ++ label n)%string).
Proof.
  intros Hp. destruct l as [|x0 l0]; [discriminate|]. injection Hp as <-.
  intros k n Hn. destruct (run_steps_entry _ _ _ Hn) as (x & _ & ->).
  unfold node_for, rpartition.
  destruct (rsplit_last "/" (path x)) as [[b e]|] eqn:Hr; simpl.
  - split; [by eapply rsplit_last_no_sep|]. right. exists b.
    by apply rsplit_last_Some_app.
  - split; [by apply rsplit_last_None_count|]. by left.
Qed.


(** X13: for a well-formed identifier whose status line Rich accepts,
    the CLI always requests the metadata first and then the listing on
    ["main"], whatever the metadata request gave, and at most one more
    request, on ["master"]. *)
Theorem main_requests repo meta net rich :
  count_char "/" repo = 1 -> accepts rich (status_markup repo) = true ->
  exists rest, (main repo meta net rich).1.2 = Req_metadata :: Req_tree "main" :: rest /\
               (rest = [] \/ rest = [Req_tree "master"]).
Proof.
  intros Hc Hs. unfold main. pose proof (split_on_length "/" repo) as Hlen.
  destruct (split_on "/" repo) as [|a [|b [|c l]]]; simpl in Hlen; try lia.
  rewrite Hs.
  pose proof (get_repo_tree_cases net "main") as Hcases.
  destruct (get_repo_tree net "main") as [ft log].
  assert (log = ["main"] \/ log = ["main"; "master"]) as Hlog.
  { destruct (net "main"); simpl in Hcases; injection Hcases as _ ->; auto. }
  destruct Hlog as [-> | ->]; simpl; repeat case_match; simpl; eauto.
Qed.

(** ** Witnesses of the further properties *)

Lemma populate_tree_parents_witness :
  populate_tree [mk_item "a/b.txt" "blob"; mk_item "a" "tree"] =
    Some [mk_tnode 0 "a" "a" true; mk_tnode 1 "b.txt" "a/b.txt" false] /\
  [mk_tnode 0 "a" "a" true; mk_tnode 1 "b.txt" "a/b.txt" false] !! 1 =
    Some (mk_tnode 1 "b.txt" "a/b.txt" false) /\
  exists names, walk_names [mk_tnode 0 "a" "a" true; mk_tnode 1 "b.txt" "a/b.txt" false]
                  2 2 = Some names.
Proof.
  split; [vm_compute; reflexivity|]. split; [reflexivity|].
  apply (populate_tree_parents [mk_item "a/b.txt" "blob"; mk_item "a" "tree"]
           [mk_tnode 0 "a" "a" true; mk_tnode 1 "b.txt" "a/b.txt" false]
           ltac:(vm_compute; reflexivity) 1 (mk_tnode 1 "b.txt" "a/b.txt" false)
           ltac:(reflexivity)).
Defined.

Lemma populate_tree_order_independent_witness :
  NoDup (path <$> [mk_item "a/b.txt" "blob"; mk_item "a" "tree"]) /\
  [mk_item "a/b.txt" "blob"; mk_item "a" "tree"] ≡ₚ
    [mk_item "a" "tree"; mk_item "a/b.txt" "blob"] /\
  populate_tree [mk_item "a/b.txt" "blob"; mk_item "a" "tree"] =
    populate_tree [mk_item "a" "tree"; mk_item "a/b.txt" "blob"].
Proof.
  assert (NoDup (path <$> [mk_item "a/b.txt" "blob"; mk_item "a" "tree"])) as Hnd
    by (apply (bool_decide_unpack _); vm_compute; reflexivity).
  assert ([mk_item "a/b.txt" "blob"; mk_item "a" "tree"] ≡ₚ
          [mk_item "a" "tree"; mk_item "a/b.txt" "blob"]) as Hp
    by apply perm_swap.
  split; [exact Hnd|]. split; [exact Hp|].
  exact (populate_tree_order_independent _ _ Hnd Hp).
Defined.

Lemma analyze_languages_permutation_witness :
  [mk_item "a.py" "blob"; mk_item "b.md" "blob"] ≡ₚ
    [mk_item "b.md" "blob"; mk_item "a.py" "blob"] /\
  analyze_languages [mk_item "a.py" "blob"; mk_item "b.md" "blob"] =
    analyze_languages [mk_item "b.md" "blob"; mk_item "a.py" "blob"].
Proof.
  assert ([mk_item "a.py" "blob"; mk_item "b.md" "blob"] ≡ₚ
          [mk_item "b.md" "blob"; mk_item "a.py" "blob"]) as Hp
    by apply perm_swap.
  split; [exact Hp|]. exact (analyze_languages_permutation _ _ Hp).
Defined.

Lemma analyze_languages_values_witness :
  analyze_languages [mk_item "a.py" "blob"; mk_item "b.py" "blob"; mk_item "c" "tree"]
    !! "Python" = Some 2 /\
  1 <= 2 <= length (filter (fun it => is_blob it = true)
                      [mk_item "a.py" "blob"; mk_item "b.py" "blob"; mk_item "c" "tree"]) /\
  exists ext, lang_map !! ext = Some "Python".
Proof.
  split; [vm_compute; reflexivity|].
  apply (analyze_languages_values
           [mk_item "a.py" "blob"; mk_item "b.py" "blob"; mk_item "c" "tree"] "Python" 2).
  vm_compute. reflexivity.
Defined.

Lemma populate_tree_labels_witness :
  populate_tree [mk_item "a/b.txt" "blob"; mk_item "a" "tree"] =
    Some [mk_tnode 0 "a" "a" true; mk_tnode 1 "b.txt" "a/b.txt" false] /\
  count_char "/" "b.txt" = 0 /\
  ("a/b.txt" = "b.txt" \/ exists pre, "a/b.txt" = (pre ++ "/" ++ "b.txt")%string).
Proof.
  split; [vm_compute; reflexivity|].
  apply (populate_tree_labels [mk_item "a/b.txt" "blob"; mk_item "a" "tree"]
           [mk_tnode 0 "a" "a" true; mk_tnode 1 "b.txt" "a/b.txt" false]
           ltac:(vm_compute; reflexivity) 1 (mk_tnode 1 "b.txt" "a/b.txt" false)
           ltac:(reflexivity)).
Defined.

Lemma main_requests_witness :
  count_char "/" "o/r" = 1 /\ accepts reject_etc (status_markup "o/r") = true /\
  exists rest, (main "o/r" Meta_transport_error (fun _ => Http_error 404) reject_etc).1.2 =
                 Req_metadata :: Req_tree "main" :: rest /\
               (rest = [] \/ rest = [Req_tree "master"]).
Proof.
  split; [reflexivity|]. split; [vm_compute; reflexivity|].
  apply (main_requests "o/r" Meta_transport_error (fun _ => Http_error 404) reject_etc).
  - reflexivity.
  - vm_compute. reflexivity.
Defined.
